(** * The StarType value-reference grammar (parse/StarTypeValueRefParser.cpp)

    A shallow embedding of the grammar that [star_type_parser_rules] builds
    and that [parse::value_ref_parser<StarType>()] publishes.

    The file composes generic parsers declared in headers that are not among
    the files at hand (the lexer, [EnumParser.h], [ValueRefParserImpl.h]).
    What those parsers do is taken from the specification and marked as
    such; what the enumeration and the keyword tables contain is left as a
    parameter of the development. *)

From Stdlib Require Import List String Bool Arith Lia.
Import ListNotations.
Open Scope string_scope.
Set Warnings "-register-all".

(** ** Tokens and the token-stream cursor *)

(** A token is represented by its text: the keyword, identifier or
    punctuation it was classified from.  Source positions play no part in
    matching and are left out. *)
Definition token := string.

(** The parse position ([Iterator& first] in Spirit): an index into the
    immutable token buffer. *)
Definition Iterator := nat.

(** The keyword tokens of the lexer singleton that the source names
    ([tok.StarType_] and so on). *)
Module lexer.
Definition StarType_ : token := "StarType".
Definition NextOlderStarType_ : token := "NextOlderStarType".
Definition NextYoungerStarType_ : token := "NextYoungerStarType".
End lexer.

(** ** Parser components

    A component is called with the token buffer and the cursor and answers
    with an optional attribute and the cursor it leaves behind.  The
    combinators follow the [parse] members of Boost.Spirit Qi: nothing in
    their type forces a failing component to leave the cursor alone, that is
    a property to be proved of each rule. *)
Definition rule (A : Type) := list token -> Iterator -> option A * Iterator.

Module qi.

(** A lexer-token component: matches when the token under the cursor is
    accepted by [f], steps over it, and leaves the cursor otherwise. *)
Definition token_parser {A} (f : token -> option A) : rule A :=
  fun toks first =>
    match nth_error toks first with
    | Some t =>
        match f t with
        | Some a => (Some a, S first)
        | None => (None, first)
        end
    | None => (None, first)
    end.

(** A keyword token; its attribute is the keyword's name. *)
Definition tok (k : token) : rule string :=
  token_parser (fun t => if String.eqb t k then Some k else None).

(** [a | b]: the components are tried in the order written, each on the
    cursor as the one before left it; the first that matches decides. *)
Definition alternative {A} (a b : rule A) : rule A :=
  fun toks first =>
    match a toks first with
    | (Some x, it) => (Some x, it)
    | (None, it) => b toks it
    end.

(** [a >> b]: works on a copy of the cursor and commits it only when both
    components matched. *)
Definition sequence {A B} (a : rule A) (b : rule B) : rule (A * B) :=
  fun toks first =>
    match a toks first with
    | (Some x, it) =>
        match b toks it with
        | (Some y, it') => (Some (x, y), it')
        | (None, _) => (None, first)
        end
    | (None, _) => (None, first)
    end.

(** [-a]: always matches; the attribute is absent when [a] did not. *)
Definition optional {A} (a : rule A) : rule (option A) :=
  fun toks first =>
    match a toks first with
    | (Some x, it) => (Some (Some x), it)
    | (None, it) => (Some None, it)
    end.

(** [a [ _val = f(_1) ]]: a semantic action that builds the attribute. *)
Definition action {A B} (a : rule A) (f : A -> B) : rule B :=
  fun toks first =>
    match a toks first with
    | (Some x, it) => (Some (f x), it)
    | (None, it) => (None, it)
    end.

(** The name a default-constructed [qi::rule] carries. *)
Definition unnamed_rule : string := "unnamed-rule".

End qi.

Declare Scope qi_scope.
Delimit Scope qi_scope with qi.
Infix "<|>" := qi.alternative (at level 62, right associativity) : qi_scope.
Infix ">>" := qi.sequence (at level 61, left associativity) : qi_scope.

(** Outcome of a call: did the component match, and where is the cursor. *)
Definition matched {A} (r : option A * Iterator) : bool :=
  match fst r with Some _ => true | None => false end.

(** The backtracking contract of a rule: a failed call leaves the cursor
    where it was. *)
Definition restores {A} (r : rule A) : Prop :=
  forall toks first, fst (r toks first) = None -> snd (r toks first) = first.

(** A rule that needs at least one token: at or past the end of the buffer
    it fails (and stays put). *)
Definition needs_input {A} (r : rule A) : Prop :=
  forall toks first, List.length toks <= first -> r toks first = (None, first).

(** ** The rule members of [struct star_type_parser_rules] *)

Module member.

Inductive t : Set :=
| variable_name
| constant
| bound_variable
| statistic_sub_value_ref
| statistic
| function_expr
| operated_expr
| expr
| primary_expr.

Definition eq_dec (a b : t) : {a = b} + {a <> b}.
Proof. decide equality. Defined.

Definition eqb (a b : t) : bool := if eq_dec a b then true else false.

(** All the members, in declaration order. *)
Definition all : list t :=
  [variable_name; constant; bound_variable; statistic_sub_value_ref;
   statistic; function_expr; operated_expr; expr; primary_expr].

End member.

(** ** Debug names

    Every member starts out default-constructed, with Spirit's default
    name; the constructor then runs its [name(...)] statements in order. *)

Definition rule_names := member.t -> string.

Definition default_constructed : rule_names := fun _ => qi.unnamed_rule.

(** [r.name(s)] *)
Definition name (m : member.t) (s : string) (names : rule_names) : rule_names :=
  fun m' => if member.eqb m' m then s else names m'.

(** The [name(...)] statements of the constructor, in source order. *)
Definition naming_statements : list (member.t * string) :=
  [ (member.variable_name, "StarType variable name (e.g., StarType)");
    (member.constant, "StarType");
    (member.bound_variable, "StarType variable");
    (member.statistic, "StarType statistic");
    (member.primary_expr, "StarType expression") ].

(** The names the members carry once the constructor has run. *)
Definition constructed_names : rule_names :=
  fold_left (fun names ms => name (fst ms) (snd ms) names)
    naming_statements default_constructed.

(** Whether the constructor names a member at all. *)
Definition is_named (m : member.t) : bool :=
  existsb (fun ms => member.eqb (fst ms) m) naming_statements.

(** ** The registry lookup [parse::value_ref_parser<StarType>()]

    The function holds a function-local [static star_type_parser_rules
    retval].  The program state records how many rule structures have been
    constructed so far and which one, if any, the static holds; a structure
    is identified by its construction number. *)

Record program_state := {
  constructed : nat;
  retval : option nat
}.

Definition program_start : program_state :=
  {| constructed := 0; retval := None |}.

(** A reference to a rule: a member of one particular rule structure. *)
Record rule_ref := {
  object : nat;
  field : member.t
}.

(** Running the constructor of [star_type_parser_rules] builds a new
    structure. *)
Definition star_type_parser_rules (s : program_state) : nat * program_state :=
  (constructed s, {| constructed := S (constructed s); retval := retval s |}).

(** The static is initialised the first time control passes through its
    declaration; every call returns [retval.expr]. *)
Definition value_ref_parser (s : program_state) : rule_ref * program_state :=
  match retval s with
  | Some o => ({| object := o; field := member.expr |}, s)
  | None =>
      let (o, s') := star_type_parser_rules s in
      ({| object := o; field := member.expr |},
       {| constructed := constructed s'; retval := Some o |})
  end.

(** [n] lookups in a row, with the references they returned. *)
Fixpoint lookups (n : nat) (s : program_state) : list rule_ref * program_state :=
  match n with
  | 0 => ([], s)
  | S n' =>
      let (r, s1) := value_ref_parser s in
      let (rs, s2) := lookups n' s1 in
      (r :: rs, s2)
  end.

(** ** Expression nodes

    The parse result, over the value type, the type of qualifiers and the
    type of aggregation kinds. *)

Inductive ValueRef (StarType Qualifier StatisticType : Type) : Type :=
| Constant (value : StarType)
| BoundVariable (property_name : string) (qualifiers : list Qualifier)
| Statistic (stat_type : StatisticType)
            (value_ref : ValueRef StarType Qualifier StatisticType)
| FunctionExpression (function_name : string)
            (operands : list (ValueRef StarType Qualifier StatisticType))
| OperatedExpression (operator_name : string)
            (operands : list (ValueRef StarType Qualifier StatisticType)).

Arguments Constant {StarType Qualifier StatisticType} value.
Arguments BoundVariable {StarType Qualifier StatisticType} property_name qualifiers.
Arguments Statistic {StarType Qualifier StatisticType} stat_type value_ref.
Arguments FunctionExpression {StarType Qualifier StatisticType} function_name operands.
Arguments OperatedExpression {StarType Qualifier StatisticType} operator_name operands.

(** ** What the absent declarations provide

    The enumeration [StarType] with the table of its literal spellings (the
    alternatives of [parse::enum_parser<StarType>()]); the qualifying
    clauses a bound variable may carry and the rule that reads them; the
    aggregation kinds and the keywords that select them; and the
    function-call and operator forms that
    [initialize_nonnumeric_expression_parsers] installs in [function_expr]
    and [operated_expr]. *)

Record generic_parsers : Type := {
  StarType : Type;
  enum_literal : token -> option StarType;
  Qualifier : Type;
  qualifying_clauses : rule (list Qualifier);
  StatisticType : Type;
  statistic_keyword : token -> option StatisticType;
  function_expr : rule (ValueRef StarType Qualifier StatisticType);
  operated_expr : rule (ValueRef StarType Qualifier StatisticType)
}.

(** [parse::value_ref_parser_rule<StarType>]: the attribute is a node. *)
Definition node (G : generic_parsers) : Type :=
  ValueRef (StarType G) (Qualifier G) (StatisticType G).

Section StarTypeGrammar.

Variable G : generic_parsers.

(** *** The generic sub-parsers *)

(** Modelled from the spec: [parse::enum_parser<T>()] of EnumParser.h is
    not among the sources.  It matches the token under the cursor against
    the known literal spellings of [T]; on a match it consumes the token
    and yields the enumerator, otherwise it fails without consuming. *)
Definition enum_parser : rule (StarType G) :=
  qi.token_parser (enum_literal G).

(** Modelled from the spec: [initialize_bound_variable_parser<T>] of
    ValueRefParserImpl.h is not among the sources.  The rule it installs
    matches one of the variable-name keywords the caller supplies,
    optionally followed by qualifying clauses, and yields a bound-variable
    node with the matched name and the qualifiers read (none when the
    clauses are absent). *)
Definition initialize_bound_variable_parser
    (variable_name : rule string) : rule (node G) :=
  qi.action (variable_name >> qi.optional (qualifying_clauses G))%qi
    (fun nq => BoundVariable (fst nq)
                 (match snd nq with Some qs => qs | None => [] end)).

(** Modelled from the spec: [initialize_nonnumeric_statistic_parser<T>] of
    ValueRefParserImpl.h is not among the sources.  The rule it installs
    matches a statistic keyword followed by the sub-expression rule the
    caller supplies, and yields a statistic node of that kind over the
    sub-expression. *)
Definition initialize_nonnumeric_statistic_parser
    (value_ref : rule (node G)) : rule (node G) :=
  qi.action (qi.token_parser (statistic_keyword G) >> value_ref)%qi
    (fun kv => Statistic (fst kv) (snd kv)).

(** Modelled from the spec: [initialize_nonnumeric_expression_parsers<T>]
    of ValueRefParserImpl.h is not among the sources.  It receives the
    four rules [function_expr], [operated_expr], [expr] and [primary_expr]
    by reference and makes [expr] the entry that chooses, in this order,
    among the forms of [primary_expr] (constant, bound variable,
    statistic), the function-call form and the operator form.  Whatever
    the two forms are (they may refer back to [expr]), [expr] is this
    alternative over them.  Rules are linked by reference, so [expr] sees
    the definition [primary_expr] receives later in the constructor. *)
Definition initialize_nonnumeric_expression_parsers
    (primary_expr : rule (node G)) : rule (node G) :=
  (primary_expr <|> function_expr G <|> operated_expr G)%qi.

(** *** The rules of [star_type_parser_rules], as its constructor defines them

    The definitions follow the constructor statement by statement; they are
    listed in the order of dependency, with [primary_expr] (defined last in
    the constructor) before [expr], which refers to it. *)

(** [variable_name %= tok.StarType_ | tok.NextOlderStarType_ |
    tok.NextYoungerStarType_] *)
Definition variable_name : rule string :=
  (qi.tok lexer.StarType_
   <|> qi.tok lexer.NextOlderStarType_
   <|> qi.tok lexer.NextYoungerStarType_)%qi.

(** [constant = parse::enum_parser<StarType>()
      [ _val = new_<ValueRef::Constant<StarType> >(_1) ]] *)
Definition constant : rule (node G) :=
  qi.action enum_parser Constant.

(** [initialize_bound_variable_parser<StarType>(bound_variable, variable_name)] *)
Definition bound_variable : rule (node G) :=
  initialize_bound_variable_parser variable_name.

(** [statistic_sub_value_ref = constant | bound_variable] *)
Definition statistic_sub_value_ref : rule (node G) :=
  (constant <|> bound_variable)%qi.

(** [initialize_nonnumeric_statistic_parser<StarType>(statistic,
    statistic_sub_value_ref)] *)
Definition statistic : rule (node G) :=
  initialize_nonnumeric_statistic_parser statistic_sub_value_ref.

(** [primary_expr = constant | bound_variable | statistic] *)
Definition primary_expr : rule (node G) :=
  (constant <|> bound_variable <|> statistic)%qi.

(** [initialize_nonnumeric_expression_parsers<StarType>(function_expr,
    operated_expr, expr, primary_expr)] *)
Definition expr : rule (node G) :=
  initialize_nonnumeric_expression_parsers primary_expr.

(** *** Parsing through the registry *)

(** The rule a reference denotes.  Every structure is built by the same
    constructor, so the rule depends on the member only.  [variable_name]
    is a [name_token_rule]; a reference to a value-reference rule never
    denotes it. *)
Definition target (r : rule_ref) : option (rule (node G)) :=
  match field r with
  | member.variable_name => None
  | member.constant => Some constant
  | member.bound_variable => Some bound_variable
  | member.statistic_sub_value_ref => Some statistic_sub_value_ref
  | member.statistic => Some statistic
  | member.function_expr => Some (function_expr G)
  | member.operated_expr => Some (operated_expr G)
  | member.expr => Some expr
  | member.primary_expr => Some primary_expr
  end.

(** One parse at the StarType rule: look the rule up, then run it on the
    token buffer from the given position. *)
Definition parse (s : program_state) (toks : list token) (first : Iterator)
  : (option (node G) * Iterator) * program_state :=
  let (r, s') := value_ref_parser s in
  (match target r with
   | Some g => g toks first
   | None => (None, first)
   end, s').

End StarTypeGrammar.

(** ** Vocabulary of the properties *)

(** The keywords [variable_name] lists. *)
Definition variable_keywords : list token :=
  [lexer.StarType_; lexer.NextOlderStarType_; lexer.NextYoungerStarType_].

Definition is_variable_keyword (t : token) : bool :=
  existsb (String.eqb t) variable_keywords.

(** The token classes of a grammar instance are kept apart: a variable
    keyword is no enumerator literal, and a statistic keyword is neither an
    enumerator literal nor a variable keyword. *)
Definition keywords_apart (G : generic_parsers) : Prop :=
  (forall t, is_variable_keyword t = true -> enum_literal G t = None) /\
  (forall t, statistic_keyword G t <> None ->
             enum_literal G t = None /\ is_variable_keyword t = false).

(** A node without operands: a constant or a bound variable. *)
Definition is_leaf {T Q S : Type} (v : ValueRef T Q S) : bool :=
  match v with
  | Constant _ | BoundVariable _ _ => true
  | _ => false
  end.

(** A leaf, or a statistic over a leaf. *)
Definition is_flat {T Q S : Type} (v : ValueRef T Q S) : bool :=
  match v with
  | Constant _ | BoundVariable _ _ => true
  | Statistic _ w => is_leaf w
  | _ => false
  end.

(** A rule that keeps the cursor inside the buffer and never moves it
    backwards. *)
Definition stays_in_buffer {A} (r : rule A) : Prop :=
  forall toks first, first <= List.length toks ->
    first <= snd (r toks first) <= List.length toks.

(** The outcome of a call, with the cursor moved [n] tokens on. *)
Definition shifted {A} (n : nat) (r : option A * Iterator) : option A * Iterator :=
  (fst r, n + snd r).

(** A rule that does not look at what lies before the cursor: with [pre]
    put in front of the buffer, and the cursor moved accordingly, it gives
    the same attribute and ends at the corresponding position. *)
Definition position_independent {A} (r : rule A) : Prop :=
  forall (pre toks : list token) (first : Iterator),
    r (pre ++ toks)%list (List.length pre + first) =
    shifted (List.length pre) (r toks first).

(** The [debug(...)] statements of the constructor, in source order; they
    are compiled in only under [DEBUG_VALUEREF_PARSERS]. *)
Definition debug_statements (DEBUG_VALUEREF_PARSERS : bool) : list member.t :=
  if DEBUG_VALUEREF_PARSERS then
    [member.variable_name; member.constant; member.bound_variable;
     member.statistic; member.primary_expr]
  else [].

(** ** A small instance

    The concrete scenario of the specification: [Blue] is an enumerator
    literal and [Foo] is no token of the grammar.  The other tables are
    stand-ins of the shapes the specification describes, used to run the
    rules on concrete token buffers. *)
Module Sample.

Inductive star : Set := Blue.

Definition literal (t : token) : option star :=
  if String.eqb t "Blue" then Some Blue else None.

(** An object selector, as one keyword. *)
Definition selector : rule (list string) :=
  qi.action (qi.tok "Source") (fun q => [q]).

Inductive kind : Set := MODE.

Definition aggregate (t : token) : option kind :=
  if String.eqb t "Mode" then Some MODE else None.

Definition no_match {A} : rule A := fun _ first => (None, first).

(** The instance without function and operator forms. *)
Definition plain : generic_parsers :=
  {| StarType := star; enum_literal := literal;
     Qualifier := string; qualifying_clauses := selector;
     StatisticType := kind; statistic_keyword := aggregate;
     function_expr := no_match; operated_expr := no_match |}.

(** A named function applied to an argument: [OneOf ( e )]. *)
Definition one_of : rule (node plain) :=
  qi.action (qi.tok "OneOf" >> qi.tok "(" >> primary_expr plain >> qi.tok ")")%qi
    (fun r => FunctionExpression "OneOf" [snd (fst r)]).

(** An infix operator between two operands: [a = b]. *)
Definition equals : rule (node plain) :=
  qi.action (primary_expr plain >> qi.tok "=" >> primary_expr plain)%qi
    (fun r => OperatedExpression "=" [fst (fst r); snd r]).

Definition parsers : generic_parsers :=
  {| StarType := star; enum_literal := literal;
     Qualifier := string; qualifying_clauses := selector;
     StatisticType := kind; statistic_keyword := aggregate;
     function_expr := one_of; operated_expr := equals |}.

(** An instance whose token classes overlap: [StarType] is also spelled
    as an enumerator literal. *)
Definition overlapping : generic_parsers :=
  {| StarType := star;
     enum_literal := fun t => if String.eqb t "StarType" then Some Blue else literal t;
     Qualifier := string; qualifying_clauses := selector;
     StatisticType := kind; statistic_keyword := aggregate;
     function_expr := one_of; operated_expr := equals |}.

End Sample.

(** * Properties of the combinators *)

Lemma token_parser_unfold {A} (f : token -> option A) toks first :
  qi.token_parser f toks first =
  match nth_error toks first with
  | Some t =>
      match f t with
      | Some a => (Some a, S first)
      | None => (None, first)
      end
  | None => (None, first)
  end.
Proof. reflexivity. Qed.

Lemma token_parser_restores {A} (f : token -> option A) :
  restores (qi.token_parser f).
Proof.
  intros toks first. rewrite token_parser_unfold.
  destruct (nth_error toks first) as [t|]; [destruct (f t)|]; simpl; congruence.
Qed.

Lemma token_parser_needs_input {A} (f : token -> option A) :
  needs_input (qi.token_parser f).
Proof.
  intros toks first Hle. rewrite token_parser_unfold.
  apply nth_error_None in Hle. rewrite Hle. reflexivity.
Qed.

(** A failed call, spelled out with the cursor it must leave. *)
Lemma restores_fail {A} (r : rule A) toks first :
  restores r -> fst (r toks first) = None -> r toks first = (None, first).
Proof.
  intros Hr Hf. specialize (Hr toks first Hf).
  destruct (r toks first) as [o it]; simpl in *; subst; reflexivity.
Qed.

Lemma alternative_restores {A} (a b : rule A) :
  restores a -> restores b -> restores (a <|> b)%qi.
Proof.
  intros Ha Hb toks first. unfold qi.alternative.
  destruct (a toks first) as [[x|] it] eqn:E; simpl; [discriminate|].
  assert (it = first) as -> by (specialize (Ha toks first); rewrite E in Ha; auto).
  apply Hb.
Qed.

Lemma alternative_needs_input {A} (a b : rule A) :
  needs_input a -> needs_input b -> needs_input (a <|> b)%qi.
Proof.
  intros Ha Hb toks first Hle. unfold qi.alternative.
  rewrite (Ha toks first Hle). apply Hb, Hle.
Qed.

(** Ordered choice runs every alternative from one and the same position
    once the earlier ones restore the cursor. *)
Lemma alternative_choice {A} (a b : rule A) toks first :
  restores a ->
  (a <|> b)%qi toks first =
  match a toks first with
  | (Some x, it) => (Some x, it)
  | (None, _) => b toks first
  end.
Proof.
  intros Ha. unfold qi.alternative.
  destruct (a toks first) as [[x|] it] eqn:E; [reflexivity|].
  specialize (Ha toks first). rewrite E in Ha. simpl in Ha.
  rewrite Ha; reflexivity.
Qed.

Lemma sequence_restores {A B} (a : rule A) (b : rule B) :
  restores (a >> b)%qi.
Proof.
  intros toks first. unfold qi.sequence.
  destruct (a toks first) as [[x|] it]; [|reflexivity].
  destruct (b toks it) as [[y|] it']; simpl; [discriminate|reflexivity].
Qed.

Lemma sequence_needs_input {A B} (a : rule A) (b : rule B) :
  needs_input a -> needs_input (a >> b)%qi.
Proof.
  intros Ha toks first Hle. unfold qi.sequence.
  rewrite (Ha toks first Hle). reflexivity.
Qed.

Lemma action_restores {A B} (a : rule A) (f : A -> B) :
  restores a -> restores (qi.action a f).
Proof.
  intros Ha toks first. unfold qi.action. specialize (Ha toks first).
  destruct (a toks first) as [[x|] it]; simpl in *; [discriminate|auto].
Qed.

Lemma action_needs_input {A B} (a : rule A) (f : A -> B) :
  needs_input a -> needs_input (qi.action a f).
Proof.
  intros Ha toks first Hle. unfold qi.action.
  rewrite (Ha toks first Hle). reflexivity.
Qed.

(** The two contracts are carried through a grammar combinator by
    combinator. *)
Create HintDb backtrack.
#[local] Hint Resolve token_parser_restores alternative_restores
  sequence_restores action_restores : backtrack.
#[local] Hint Resolve token_parser_needs_input alternative_needs_input
  sequence_needs_input action_needs_input : backtrack.

(** * Properties of the rules *)

Lemma is_variable_keyword_iff (t : token) :
  is_variable_keyword t = true <-> In t variable_keywords.
Proof.
  unfold is_variable_keyword. rewrite existsb_exists. split.
  - intros [k [Hin Heq]]. apply String.eqb_eq in Heq. subst. exact Hin.
  - intros Hin. exists t. split; [exact Hin | apply String.eqb_refl].
Qed.

Lemma tok_unfold (k : token) toks first :
  qi.tok k toks first =
  match nth_error toks first with
  | Some t => if String.eqb t k then (Some t, S first) else (None, first)
  | None => (None, first)
  end.
Proof.
  unfold qi.tok. rewrite token_parser_unfold.
  destruct (nth_error toks first) as [t|]; [|reflexivity].
  destruct (String.eqb t k) eqn:E; [|reflexivity].
  apply String.eqb_eq in E. subst. reflexivity.
Qed.

(** [variable_name] matches exactly the three keywords, yields the keyword
    and steps over it. *)
Lemma variable_name_unfold toks first :
  variable_name toks first =
  match nth_error toks first with
  | Some t => if is_variable_keyword t then (Some t, S first) else (None, first)
  | None => (None, first)
  end.
Proof.
  unfold variable_name.
  rewrite !alternative_choice by apply token_parser_restores.
  rewrite !tok_unfold.
  destruct (nth_error toks first) as [t|]; [|reflexivity].
  unfold is_variable_keyword, variable_keywords. cbn [existsb].
  destruct (String.eqb t lexer.StarType_); [reflexivity|].
  destruct (String.eqb t lexer.NextOlderStarType_); [reflexivity|].
  destruct (String.eqb t lexer.NextYoungerStarType_); reflexivity.
Qed.

Section RuleProperties.

Variable G : generic_parsers.

Lemma constant_unfold toks first :
  constant G toks first =
  match nth_error toks first with
  | Some t =>
      match enum_literal G t with
      | Some e => (Some (Constant e), S first)
      | None => (None, first)
      end
  | None => (None, first)
  end.
Proof.
  unfold constant, qi.action, enum_parser. rewrite token_parser_unfold.
  destruct (nth_error toks first) as [t|]; [|reflexivity].
  destruct (enum_literal G t); reflexivity.
Qed.

Lemma bound_variable_unfold toks first :
  bound_variable G toks first =
  match nth_error toks first with
  | Some t =>
      if is_variable_keyword t then
        match qualifying_clauses G toks (S first) with
        | (Some qs, it) => (Some (BoundVariable t qs), it)
        | (None, it) => (Some (BoundVariable t []), it)
        end
      else (None, first)
  | None => (None, first)
  end.
Proof.
  unfold bound_variable, initialize_bound_variable_parser,
    qi.action, qi.sequence, qi.optional.
  rewrite variable_name_unfold.
  destruct (nth_error toks first) as [t|]; [|reflexivity].
  destruct (is_variable_keyword t); [|reflexivity].
  destruct (qualifying_clauses G toks (S first)) as [[qs|] it]; reflexivity.
Qed.

Lemma statistic_unfold toks first :
  statistic G toks first =
  match nth_error toks first with
  | Some t =>
      match statistic_keyword G t with
      | Some k =>
          match statistic_sub_value_ref G toks (S first) with
          | (Some v, it) => (Some (Statistic k v), it)
          | (None, _) => (None, first)
          end
      | None => (None, first)
      end
  | None => (None, first)
  end.
Proof.
  unfold statistic, initialize_nonnumeric_statistic_parser,
    qi.action, qi.sequence.
  rewrite token_parser_unfold.
  destruct (nth_error toks first) as [t|]; [|reflexivity].
  destruct (statistic_keyword G t); [|reflexivity].
  destruct (statistic_sub_value_ref G toks (S first)) as [[v|] it]; reflexivity.
Qed.

(** *** Backtracking *)

Lemma constant_restores : restores (constant G).
Proof. unfold constant, enum_parser. auto with backtrack. Qed.

Lemma bound_variable_restores : restores (bound_variable G).
Proof.
  unfold bound_variable, initialize_bound_variable_parser.
  auto with backtrack.
Qed.

Lemma statistic_restores : restores (statistic G).
Proof.
  unfold statistic, initialize_nonnumeric_statistic_parser.
  auto with backtrack.
Qed.

#[local] Hint Resolve constant_restores bound_variable_restores
  statistic_restores : backtrack.

Lemma statistic_sub_value_ref_restores : restores (statistic_sub_value_ref G).
Proof. unfold statistic_sub_value_ref. auto with backtrack. Qed.

Lemma primary_expr_restores : restores (primary_expr G).
Proof. unfold primary_expr. auto with backtrack. Qed.

Lemma expr_restores :
  restores (function_expr G) -> restores (operated_expr G) ->
  restores (expr G).
Proof.
  intros Hf Ho. unfold expr, initialize_nonnumeric_expression_parsers.
  pose proof primary_expr_restores. auto with backtrack.
Qed.

(** *** No rule matches at the end of the buffer *)

Lemma variable_name_needs_input : needs_input variable_name.
Proof. unfold variable_name, qi.tok. auto with backtrack. Qed.

Lemma primary_expr_needs_input : needs_input (primary_expr G).
Proof.
  pose proof variable_name_needs_input.
  unfold primary_expr, constant, enum_parser, bound_variable, statistic,
    initialize_bound_variable_parser, initialize_nonnumeric_statistic_parser.
  auto 7 with backtrack.
Qed.

Lemma expr_needs_input :
  needs_input (function_expr G) -> needs_input (operated_expr G) ->
  needs_input (expr G).
Proof.
  intros Hf Ho. unfold expr, initialize_nonnumeric_expression_parsers.
  pose proof primary_expr_needs_input. auto with backtrack.
Qed.

(** *** Ordered choice, from one and the same position *)

Lemma statistic_sub_value_ref_choice toks first :
  statistic_sub_value_ref G toks first =
  match constant G toks first with
  | (Some v, it) => (Some v, it)
  | (None, _) => bound_variable G toks first
  end.
Proof. apply alternative_choice, constant_restores. Qed.

Lemma primary_expr_choice toks first :
  primary_expr G toks first =
  match constant G toks first with
  | (Some v, it) => (Some v, it)
  | (None, _) =>
      match bound_variable G toks first with
      | (Some v, it) => (Some v, it)
      | (None, _) => statistic G toks first
      end
  end.
Proof.
  unfold primary_expr.
  rewrite alternative_choice by apply constant_restores.
  destruct (constant G toks first) as [[v|] it]; [reflexivity|].
  apply alternative_choice, bound_variable_restores.
Qed.

Lemma expr_choice toks first :
  expr G toks first =
  match primary_expr G toks first with
  | (Some v, it) => (Some v, it)
  | (None, _) =>
      match function_expr G toks first with
      | (Some v, it) => (Some v, it)
      | (None, it) => operated_expr G toks it
      end
  end.
Proof.
  unfold expr, initialize_nonnumeric_expression_parsers.
  rewrite alternative_choice by apply primary_expr_restores.
  reflexivity.
Qed.

(** *** The lookup always hands out [expr] *)

Lemma value_ref_parser_field (s : program_state) :
  field (fst (value_ref_parser s)) = member.expr.
Proof.
  unfold value_ref_parser. destruct (retval s); reflexivity.
Qed.

Lemma parse_unfold (s : program_state) toks first :
  parse G s toks first = (expr G toks first, snd (value_ref_parser s)).
Proof.
  unfold parse. pose proof (value_ref_parser_field s) as Hf.
  destruct (value_ref_parser s) as [r s']. simpl in *.
  unfold target. rewrite Hf. reflexivity.
Qed.

End RuleProperties.

(** * Debug names *)

Lemma is_named_iff (m : member.t) :
  is_named m = true <->
  In m [member.variable_name; member.constant; member.bound_variable;
        member.statistic; member.primary_expr].
Proof.
  destruct m; vm_compute; intuition congruence.
Qed.

(** * The registry lookup *)

Lemma value_ref_parser_initialised (s : program_state) (o : nat) :
  retval s = Some o ->
  value_ref_parser s = ({| object := o; field := member.expr |}, s).
Proof.
  intros H. unfold value_ref_parser. rewrite H. reflexivity.
Qed.

Lemma value_ref_parser_first (s : program_state) :
  retval s = None ->
  value_ref_parser s =
  ({| object := constructed s; field := member.expr |},
   {| constructed := S (constructed s); retval := Some (constructed s) |}).
Proof.
  intros H. unfold value_ref_parser. rewrite H. reflexivity.
Qed.

Lemma lookups_initialised (n : nat) (s : program_state) (o : nat) :
  retval s = Some o ->
  lookups n s = (repeat {| object := o; field := member.expr |} n, s).
Proof.
  intros H. induction n as [|n IH]; simpl.
  - reflexivity.
  - rewrite (value_ref_parser_initialised s o H), IH. reflexivity.
Qed.

Lemma lookups_from_start (n : nat) :
  lookups (S n) program_start =
  (repeat {| object := 0; field := member.expr |} (S n),
   {| constructed := 1; retval := Some 0 |}).
Proof.
  cbn [lookups]. unfold value_ref_parser at 1. cbn.
  rewrite lookups_initialised with (o := 0) by reflexivity. reflexivity.
Qed.

Lemma nth_error_repeat_eq {A} (x y : A) (n i : nat) :
  nth_error (repeat x n) i = Some y -> y = x.
Proof.
  intros H. apply nth_error_In in H. apply repeat_spec in H. exact H.
Qed.

(** What a match of [bound_variable] or [statistic] says about the token
    under the cursor. *)
Lemma bound_variable_match_keyword (G : generic_parsers) toks first :
  matched (bound_variable G toks first) = true ->
  exists t, nth_error toks first = Some t /\ is_variable_keyword t = true.
Proof.
  rewrite bound_variable_unfold.
  destruct (nth_error toks first) as [t|]; [|discriminate].
  destruct (is_variable_keyword t) eqn:E; [|discriminate].
  intros _. exists t. auto.
Qed.

Lemma statistic_match_keyword (G : generic_parsers) toks first :
  matched (statistic G toks first) = true ->
  exists t, nth_error toks first = Some t /\ statistic_keyword G t <> None.
Proof.
  rewrite statistic_unfold.
  destruct (nth_error toks first) as [t|]; [|discriminate].
  destruct (statistic_keyword G t) eqn:E; [|discriminate].
  intros _. exists t. split; [reflexivity|congruence].
Qed.

Lemma constant_miss (G : generic_parsers) toks first t :
  nth_error toks first = Some t -> enum_literal G t = None ->
  constant G toks first = (None, first).
Proof. intros Ht He. rewrite constant_unfold, Ht, He. reflexivity. Qed.

Lemma bound_variable_miss (G : generic_parsers) toks first t :
  nth_error toks first = Some t -> is_variable_keyword t = false ->
  bound_variable G toks first = (None, first).
Proof. intros Ht Hk. rewrite bound_variable_unfold, Ht, Hk. reflexivity. Qed.

Lemma matched_false_fst {A} (r : option A * Iterator) :
  matched r = false -> fst r = None.
Proof. destruct r as [[x|] it]; [discriminate|reflexivity]. Qed.

(** ** The sample instance meets the contracts *)

Lemma sample_keywords_apart : keywords_apart Sample.parsers.
Proof.
  split.
  - intros t Ht. apply is_variable_keyword_iff in Ht.
    simpl in Ht. destruct Ht as [<-|[<-|[<-|[]]]]; reflexivity.
  - intros t. simpl. unfold Sample.aggregate.
    destruct (String.eqb t "Mode") eqn:E; [|congruence].
    apply String.eqb_eq in E. subst. intros _. split; reflexivity.
Qed.

Lemma sample_selector_needs_input : needs_input Sample.selector.
Proof. apply action_needs_input, token_parser_needs_input. Qed.

Lemma sample_one_of_restores : restores Sample.one_of.
Proof. apply action_restores, sequence_restores. Qed.

Lemma sample_equals_restores : restores Sample.equals.
Proof. apply action_restores, sequence_restores. Qed.

Lemma sample_one_of_needs_input : needs_input Sample.one_of.
Proof.
  apply action_needs_input. repeat apply sequence_needs_input.
  apply token_parser_needs_input.
Qed.

Lemma sample_equals_needs_input : needs_input Sample.equals.
Proof.
  apply action_needs_input. repeat apply sequence_needs_input.
  apply primary_expr_needs_input.
Qed.

(** * The claims *)

(** C2.  Any number of lookups from program start return one and the same
    reference, to the member [expr] of one and the same rule structure; the
    structure is constructed once, by the first lookup, and no later lookup
    changes the program state. *)
Theorem value_ref_parser_singleton (n : nat) :
  constructed program_start = 0 /\
  lookups (S n) program_start =
    (repeat {| object := 0; field := member.expr |} (S n),
     {| constructed := 1; retval := Some 0 |}) /\
  (forall i j r1 r2,
      nth_error (fst (lookups n program_start)) i = Some r1 ->
      nth_error (fst (lookups n program_start)) j = Some r2 ->
      r1 = r2) /\
  (forall s,
      fst (value_ref_parser (snd (value_ref_parser s))) = fst (value_ref_parser s) /\
      snd (value_ref_parser (snd (value_ref_parser s))) = snd (value_ref_parser s) /\
      constructed (snd (value_ref_parser s)) =
        match retval s with Some _ => constructed s | None => S (constructed s) end).
Proof.
  split; [reflexivity|]. split; [apply lookups_from_start|]. split.
  - intros i j r1 r2. destruct n as [|m].
    + destruct i; discriminate.
    + rewrite lookups_from_start. cbn [fst]. intros H1 H2.
      apply nth_error_repeat_eq in H1, H2. congruence.
  - intros s. destruct (retval s) as [o|] eqn:E.
    + rewrite (value_ref_parser_initialised s o E). cbn [fst snd].
      rewrite (value_ref_parser_initialised s o E). auto.
    + rewrite (value_ref_parser_first s E). cbn [fst snd].
      rewrite value_ref_parser_initialised with (o := constructed s)
        by reflexivity.
      auto.
Qed.

(** C6.  [primary_expr] tries its alternatives in the order written, each
    from the same position: the constant decides when it matches, the
    bound variable is consulted only when the constant failed, the statistic
    only when both failed.  A single token that is an enumerator literal is
    parsed as that constant, by [primary_expr] and at the entry point,
    whatever else the token might also be. *)
Theorem primary_expr_first_match_wins
    (G : generic_parsers) (toks : list token) (first : Iterator) :
  primary_expr G toks first =
    match constant G toks first with
    | (Some v, it) => (Some v, it)
    | (None, _) =>
        match bound_variable G toks first with
        | (Some v, it) => (Some v, it)
        | (None, _) => statistic G toks first
        end
    end /\
  (forall t e, enum_literal G t = Some e ->
     primary_expr G [t] 0 = (Some (Constant e), 1) /\
     expr G [t] 0 = (Some (Constant e), 1)).
Proof.
  split; [apply primary_expr_choice|].
  intros t e He.
  assert (primary_expr G [t] 0 = (Some (Constant e), 1)) as Hp.
  { rewrite primary_expr_choice, constant_unfold. simpl. rewrite He. reflexivity. }
  split; [exact Hp|]. rewrite expr_choice, Hp. reflexivity.
Qed.

(** First match, not longest match: where [StarType] is also an enumerator
    literal, the constant decides after one token although the bound
    variable would have read two. *)
Example constant_shadows_longer_bound_variable :
  bound_variable Sample.overlapping ["StarType"; "Source"] 0 =
    (Some (BoundVariable "StarType" ["Source"]), 2) /\
  primary_expr Sample.overlapping ["StarType"; "Source"] 0 =
    (Some (Constant Sample.Blue), 1) /\
  expr Sample.overlapping ["StarType"; "Source"] 0 =
    (Some (Constant Sample.Blue), 1).
Proof. repeat split; vm_compute; reflexivity. Qed.

(** C8, as amended.  The [name(...)] statements of the constructor name
    exactly five of the nine rules: [variable_name], [constant],
    [bound_variable], [statistic] and [primary_expr], with the names below;
    the constructor has no such statement for the other four, which it
    leaves with the name of a default-constructed rule. *)
Theorem constructor_names_five_rules :
  (forall m, is_named m = true <->
     In m [member.variable_name; member.constant; member.bound_variable;
           member.statistic; member.primary_expr]) /\
  constructed_names member.variable_name = "StarType variable name (e.g., StarType)" /\
  constructed_names member.constant = "StarType" /\
  constructed_names member.bound_variable = "StarType variable" /\
  constructed_names member.statistic = "StarType statistic" /\
  constructed_names member.primary_expr = "StarType expression" /\
  (forall m, is_named m = false -> constructed_names m = qi.unnamed_rule).
Proof.
  split; [apply is_named_iff|].
  repeat (split; [reflexivity|]).
  intros m. destruct m; vm_compute; congruence.
Qed.

(** C8, refuted as stated: no statement of the constructor names
    [statistic_sub_value_ref], which keeps the default name. *)
Lemma statistic_sub_value_ref_is_unnamed :
  is_named member.statistic_sub_value_ref = false /\
  In member.statistic_sub_value_ref member.all /\
  constructed_names member.statistic_sub_value_ref = "unnamed-rule".
Proof. vm_compute. intuition. Qed.

(** C10.  [statistic_sub_value_ref] tries the constant first and consults
    the bound variable, from the same position, only when the constant
    failed.  Hence a statistic keyword followed by an enumerator literal
    yields a statistic over that constant, whatever else the literal might
    also be. *)
Theorem statistic_sub_value_ref_constant_first
    (G : generic_parsers) (toks : list token) (first : Iterator) :
  statistic_sub_value_ref G toks first =
    match constant G toks first with
    | (Some v, it) => (Some v, it)
    | (None, _) => bound_variable G toks first
    end /\
  (forall t k u e,
     nth_error toks first = Some t -> statistic_keyword G t = Some k ->
     nth_error toks (S first) = Some u -> enum_literal G u = Some e ->
     statistic G toks first = (Some (Statistic k (Constant e)), S (S first))).
Proof.
  split; [apply statistic_sub_value_ref_choice|].
  intros t k u e Ht Hk Hu He.
  rewrite statistic_unfold, Ht, Hk, statistic_sub_value_ref_choice,
    constant_unfold, Hu, He.
  reflexivity.
Qed.

(** C3.  With the token classes kept apart: after a statistic keyword, a
    constant or a bound variable as the aggregated sub-expression makes the
    statistic match, with that sub-expression as its operand; another
    statistic in that place makes it fail, the cursor restored, and
    [primary_expr] fails with it. *)
Theorem statistic_nesting
    (G : generic_parsers) (toks : list token) (first : Iterator)
    (t : token) (k : StatisticType G) :
  keywords_apart G ->
  nth_error toks first = Some t ->
  statistic_keyword G t = Some k ->
  (forall v it, constant G toks (S first) = (Some v, it) ->
     statistic G toks first = (Some (Statistic k v), it)) /\
  (forall v it, bound_variable G toks (S first) = (Some v, it) ->
     statistic G toks first = (Some (Statistic k v), it)) /\
  (matched (statistic G toks (S first)) = true ->
     statistic G toks first = (None, first) /\
     primary_expr G toks first = (None, first)).
Proof.
  intros [Hvar Hstat] Ht Hk. split; [|split].
  - intros v it Hc.
    rewrite statistic_unfold, Ht, Hk, statistic_sub_value_ref_choice, Hc.
    reflexivity.
  - intros v it Hb.
    destruct (bound_variable_match_keyword G toks (S first)) as [u [Hu Hvk]].
    { rewrite Hb. reflexivity. }
    rewrite statistic_unfold, Ht, Hk, statistic_sub_value_ref_choice.
    rewrite (constant_miss G toks (S first) u Hu (Hvar u Hvk)), Hb.
    reflexivity.
  - intros Hnested.
    destruct (statistic_match_keyword G toks (S first) Hnested) as [u [Hu Hsk]].
    destruct (Hstat u Hsk) as [He Hv].
    assert (statistic G toks first = (None, first)) as Hfail.
    { rewrite statistic_unfold, Ht, Hk, statistic_sub_value_ref_choice.
      rewrite (constant_miss G toks (S first) u Hu He).
      rewrite (bound_variable_miss G toks (S first) u Hu Hv).
      reflexivity. }
    split; [exact Hfail|].
    destruct (Hstat t) as [He' Hv']; [congruence|].
    rewrite primary_expr_choice.
    rewrite (constant_miss G toks first t Ht He').
    rewrite (bound_variable_miss G toks first t Ht Hv').
    exact Hfail.
Qed.

Lemma statistic_nesting_witness :
  keywords_apart Sample.parsers /\
  statistic Sample.parsers ["Mode"; "StarType"] 0 =
    (Some (Statistic Sample.MODE (BoundVariable "StarType" [])), 2) /\
  statistic Sample.parsers ["Mode"; "Blue"] 0 =
    (Some (Statistic Sample.MODE (Constant Sample.Blue)), 2) /\
  statistic Sample.parsers ["Mode"; "Mode"; "StarType"] 0 = (None, 0) /\
  primary_expr Sample.parsers ["Mode"; "Mode"; "StarType"] 0 = (None, 0).
Proof.
  split; [exact sample_keywords_apart|]. split; [|split].
  - destruct (statistic_nesting Sample.parsers ["Mode"; "StarType"] 0
                "Mode" Sample.MODE sample_keywords_apart eq_refl eq_refl)
      as [_ [Hbound _]].
    apply Hbound. reflexivity.
  - destruct (statistic_nesting Sample.parsers ["Mode"; "Blue"] 0
                "Mode" Sample.MODE sample_keywords_apart eq_refl eq_refl)
      as [Hconst _].
    apply Hconst. reflexivity.
  - destruct (statistic_nesting Sample.parsers ["Mode"; "Mode"; "StarType"] 0
                "Mode" Sample.MODE sample_keywords_apart eq_refl eq_refl)
      as [_ [_ Hnested]].
    apply Hnested. reflexivity.
Defined.

(** C4.  A single token that is a literal spelling of an enumerator parses,
    at [constant], at [primary_expr] and at the entry point, as the
    constant holding that enumerator, and the cursor ends behind the only
    token. *)
Theorem enum_literal_parses_as_constant
    (G : generic_parsers) (t : token) (e : StarType G) :
  enum_literal G t = Some e ->
  constant G [t] 0 = (Some (Constant e), 1) /\
  primary_expr G [t] 0 = (Some (Constant e), 1) /\
  (forall s, fst (parse G s [t] 0) = (Some (Constant e), List.length [t])).
Proof.
  intros He.
  assert (constant G [t] 0 = (Some (Constant e), 1)) as Hc.
  { rewrite constant_unfold. simpl. rewrite He. reflexivity. }
  assert (primary_expr G [t] 0 = (Some (Constant e), 1)) as Hp.
  { rewrite primary_expr_choice, Hc. reflexivity. }
  repeat split; trivial.
  intros s. rewrite parse_unfold, expr_choice, Hp. reflexivity.
Qed.

Lemma enum_literal_parses_as_constant_witness :
  constant Sample.parsers ["Blue"] 0 = (Some (Constant Sample.Blue), 1) /\
  primary_expr Sample.parsers ["Blue"] 0 = (Some (Constant Sample.Blue), 1) /\
  (forall s, fst (parse Sample.parsers s ["Blue"] 0) =
             (Some (Constant Sample.Blue), 1)).
Proof.
  apply (enum_literal_parses_as_constant Sample.parsers "Blue" Sample.Blue).
  reflexivity.
Defined.

(** C5.  Where a qualifying clause needs at least one token: each of the
    three keywords, alone in the input, parses at [bound_variable] as the
    bound variable of that name without qualifiers, and so it does at the
    entry point when the keyword is no enumerator literal.  [variable_name]
    matches exactly when the token under the cursor is one of the three
    keywords; it yields that token and steps over it. *)
Theorem variable_keywords_parse_as_bound_variable (G : generic_parsers) :
  needs_input (qualifying_clauses G) ->
  (forall k, In k ["StarType"; "NextOlderStarType"; "NextYoungerStarType"] ->
     bound_variable G [k] 0 = (Some (BoundVariable k []), 1) /\
     (enum_literal G k = None ->
      forall s, fst (parse G s [k] 0) = (Some (BoundVariable k []), 1))) /\
  (forall toks first,
     matched (variable_name toks first) = true <->
     exists t, nth_error toks first = Some t /\
               In t ["StarType"; "NextOlderStarType"; "NextYoungerStarType"]) /\
  (forall toks first n it,
     variable_name toks first = (Some n, it) ->
     nth_error toks first = Some n /\ it = S first).
Proof.
  intros Hq. split; [|split].
  - intros k Hk.
    assert (is_variable_keyword k = true) as Hv
      by (apply is_variable_keyword_iff; exact Hk).
    assert (bound_variable G [k] 0 = (Some (BoundVariable k []), 1)) as Hb.
    { rewrite bound_variable_unfold. simpl. rewrite Hv.
      rewrite (Hq [k] 1) by (simpl; lia). reflexivity. }
    split; [exact Hb|].
    intros He s.
    rewrite parse_unfold, expr_choice, primary_expr_choice.
    rewrite (constant_miss G [k] 0 k eq_refl He), Hb. reflexivity.
  - intros toks first. rewrite variable_name_unfold.
    destruct (nth_error toks first) as [t|].
    + destruct (is_variable_keyword t) eqn:E.
      * split; [|reflexivity]. intros _. exists t. split; [reflexivity|].
        apply is_variable_keyword_iff. exact E.
      * split; [discriminate|]. intros [u [Hu Hin]].
        injection Hu as <-. apply is_variable_keyword_iff in Hin. congruence.
    + split; [discriminate|]. intros [u [Hu _]]. discriminate.
  - intros toks first n it. rewrite variable_name_unfold.
    destruct (nth_error toks first) as [t|]; [|discriminate].
    destruct (is_variable_keyword t); [|discriminate].
    intros H. injection H as <- <-. auto.
Qed.

Lemma variable_keywords_parse_as_bound_variable_witness :
  needs_input (qualifying_clauses Sample.parsers) /\
  bound_variable Sample.parsers ["NextOlderStarType"] 0 =
    (Some (BoundVariable "NextOlderStarType" []), 1) /\
  fst (parse Sample.parsers program_start ["NextOlderStarType"] 0) =
    (Some (BoundVariable "NextOlderStarType" []), 1).
Proof.
  split; [exact sample_selector_needs_input|].
  destruct (variable_keywords_parse_as_bound_variable Sample.parsers
              sample_selector_needs_input) as [H _].
  destruct (H "NextOlderStarType") as [Hb Hp]; [simpl; auto|].
  split; [exact Hb | apply Hp; reflexivity].
Defined.

(** C7.  Where the function-call and operator forms restore the cursor on
    failure and need at least one token: the empty input fails at the entry
    point with the cursor at 0; a failed parse at the entry point leaves the
    cursor where it started, and parsing the same input again from where
    the failed parse left off fails in the same way; and an input that none
    of the five forms matches fails at the entry point. *)
Theorem unmatched_input_consumes_nothing (G : generic_parsers) :
  restores (function_expr G) -> restores (operated_expr G) ->
  needs_input (function_expr G) -> needs_input (operated_expr G) ->
  (forall s, fst (parse G s [] 0) = (None, 0)) /\
  (forall s toks first,
     matched (fst (parse G s toks first)) = false ->
     fst (parse G s toks first) = (None, first) /\
     fst (parse G (snd (parse G s toks first)) toks
            (snd (fst (parse G s toks first)))) = (None, first)) /\
  (forall s toks first,
     matched (constant G toks first) = false ->
     matched (bound_variable G toks first) = false ->
     matched (statistic G toks first) = false ->
     matched (function_expr G toks first) = false ->
     matched (operated_expr G toks first) = false ->
     fst (parse G s toks first) = (None, first)).
Proof.
  intros Hfr Hor Hfn Hon.
  pose proof (expr_restores G Hfr Hor) as Hr.
  split; [|split].
  - intros s. rewrite parse_unfold. cbn [fst].
    apply (expr_needs_input G Hfn Hon). simpl. lia.
  - intros s toks first. rewrite !parse_unfold. cbn [fst snd].
    intros Hm. apply matched_false_fst in Hm.
    rewrite (restores_fail _ toks first Hr Hm). cbn [fst snd].
    split; [reflexivity|]. apply (restores_fail _ toks first Hr Hm).
  - intros s toks first Hc Hb Hs Hf Ho. rewrite parse_unfold. cbn [fst].
    apply matched_false_fst in Hc, Hb, Hs, Hf, Ho.
    rewrite expr_choice, primary_expr_choice.
    rewrite (restores_fail _ toks first (constant_restores G) Hc).
    rewrite (restores_fail _ toks first (bound_variable_restores G) Hb).
    rewrite (restores_fail _ toks first (statistic_restores G) Hs).
    rewrite (restores_fail _ toks first Hfr Hf).
    apply (restores_fail _ toks first Hor Ho).
Qed.

Lemma unmatched_input_consumes_nothing_witness :
  fst (parse Sample.parsers program_start [] 0) = (None, 0) /\
  fst (parse Sample.parsers program_start ["Foo"] 0) = (None, 0) /\
  fst (parse Sample.parsers
         (snd (parse Sample.parsers program_start ["Foo"] 0)) ["Foo"]
         (snd (fst (parse Sample.parsers program_start ["Foo"] 0)))) = (None, 0).
Proof.
  destruct (unmatched_input_consumes_nothing Sample.parsers
              sample_one_of_restores sample_equals_restores
              sample_one_of_needs_input sample_equals_needs_input)
    as [Hempty [Hfail _]].
  split; [apply Hempty|].
  apply (Hfail program_start ["Foo"] 0). reflexivity.
Defined.

(** * Further properties of the grammar *)

(** ** The contracts, combinator by combinator *)

Lemma token_parser_stays_in_buffer {A} (f : token -> option A) :
  stays_in_buffer (qi.token_parser f).
Proof.
  intros toks first Hle. rewrite token_parser_unfold.
  destruct (nth_error toks first) as [t|] eqn:E; [|simpl; lia].
  assert (first < List.length toks)
    by (apply nth_error_Some; congruence).
  destruct (f t); simpl; lia.
Qed.

Lemma action_stays_in_buffer {A B} (a : rule A) (f : A -> B) :
  stays_in_buffer a -> stays_in_buffer (qi.action a f).
Proof.
  intros Ha toks first Hle. specialize (Ha toks first Hle).
  unfold qi.action. destruct (a toks first) as [[x|] it]; exact Ha.
Qed.

Lemma token_parser_position_independent {A} (f : token -> option A) :
  position_independent (qi.token_parser f).
Proof.
  intros pre toks first. rewrite !token_parser_unfold.
  rewrite nth_error_app2 by lia.
  replace (List.length pre + first - List.length pre) with first by lia.
  destruct (nth_error toks first) as [t|]; [destruct (f t)|];
    unfold shifted; simpl; f_equal; lia.
Qed.

Lemma alternative_position_independent {A} (a b : rule A) :
  position_independent a -> position_independent b ->
  position_independent (a <|> b)%qi.
Proof.
  intros Ha Hb pre toks first. unfold qi.alternative.
  rewrite Ha. destruct (a toks first) as [[x|] it]; unfold shifted at 1; simpl.
  - reflexivity.
  - apply Hb.
Qed.

Lemma sequence_position_independent {A B} (a : rule A) (b : rule B) :
  position_independent a -> position_independent b ->
  position_independent (a >> b)%qi.
Proof.
  intros Ha Hb pre toks first. unfold qi.sequence.
  rewrite Ha. destruct (a toks first) as [[x|] it]; unfold shifted at 1; simpl.
  - rewrite Hb. destruct (b toks it) as [[y|] it']; reflexivity.
  - reflexivity.
Qed.

Lemma optional_position_independent {A} (a : rule A) :
  position_independent a -> position_independent (qi.optional a).
Proof.
  intros Ha pre toks first. unfold qi.optional.
  rewrite Ha. destruct (a toks first) as [[x|] it]; reflexivity.
Qed.

Lemma action_position_independent {A B} (a : rule A) (f : A -> B) :
  position_independent a -> position_independent (qi.action a f).
Proof.
  intros Ha pre toks first. unfold qi.action.
  rewrite Ha. destruct (a toks first) as [[x|] it]; reflexivity.
Qed.

Create HintDb locality.
#[local] Hint Resolve token_parser_position_independent
  alternative_position_independent sequence_position_independent
  optional_position_independent action_position_independent : locality.

Lemma sample_selector_stays_in_buffer : stays_in_buffer Sample.selector.
Proof. apply action_stays_in_buffer, token_parser_stays_in_buffer. Qed.

Lemma sample_selector_position_independent :
  position_independent Sample.selector.
Proof. unfold Sample.selector, qi.tok. auto with locality. Qed.

(** ** What a match says about the result *)

Lemma statistic_sub_value_ref_leaf (G : generic_parsers) toks first v it :
  statistic_sub_value_ref G toks first = (Some v, it) -> is_leaf v = true.
Proof.
  rewrite statistic_sub_value_ref_choice, constant_unfold, bound_variable_unfold.
  destruct (nth_error toks first) as [t|]; [|discriminate].
  destruct (enum_literal G t).
  - intros H. injection H as <- _. reflexivity.
  - destruct (is_variable_keyword t); [|discriminate].
    destruct (qualifying_clauses G toks (S first)) as [[qs|] it'];
      intros H; injection H as <- _; reflexivity.
Qed.

Lemma statistic_sub_value_ref_advances (G : generic_parsers) toks first v it :
  stays_in_buffer (qualifying_clauses G) ->
  statistic_sub_value_ref G toks first = (Some v, it) ->
  first < it <= List.length toks.
Proof.
  intros Hq.
  rewrite statistic_sub_value_ref_choice, constant_unfold, bound_variable_unfold.
  destruct (nth_error toks first) as [t|] eqn:E; [|discriminate].
  assert (first < List.length toks)
    by (apply nth_error_Some; congruence).
  destruct (enum_literal G t).
  - intros H'. injection H' as _ <-. lia.
  - destruct (is_variable_keyword t); [|discriminate].
    specialize (Hq toks (S first)).
    destruct (qualifying_clauses G toks (S first)) as [[qs|] it'];
      intros H'; injection H' as _ <-; simpl in Hq; lia.
Qed.

(** [primary_expr], regrouped around the restricted rule. *)
Lemma primary_expr_regroup (G : generic_parsers) toks first :
  primary_expr G toks first =
  (statistic_sub_value_ref G <|> statistic G)%qi toks first.
Proof.
  unfold primary_expr, statistic_sub_value_ref, qi.alternative.
  destruct (constant G toks first) as [[v|] it]; [reflexivity|].
  destruct (bound_variable G toks it) as [[v|] it']; reflexivity.
Qed.

Lemma primary_expr_sub_choice (G : generic_parsers) toks first :
  primary_expr G toks first =
  match statistic_sub_value_ref G toks first with
  | (Some v, it) => (Some v, it)
  | (None, _) => statistic G toks first
  end.
Proof.
  rewrite primary_expr_regroup.
  apply alternative_choice, statistic_sub_value_ref_restores.
Qed.

(** ** The extras *)

(** X1.  The restricted rule [statistic_sub_value_ref] is a part of
    [primary_expr]: [primary_expr] is the choice between
    [statistic_sub_value_ref] and [statistic]; whatever the restricted rule
    accepts, [primary_expr] accepts with the same node and final position;
    and where the restricted rule fails, [primary_expr] is [statistic]. *)
Theorem statistic_sub_value_ref_within_primary_expr
    (G : generic_parsers) (toks : list token) (first : Iterator) :
  primary_expr G toks first =
    (statistic_sub_value_ref G <|> statistic G)%qi toks first /\
  (forall v it,
     statistic_sub_value_ref G toks first = (Some v, it) ->
     primary_expr G toks first = (Some v, it)) /\
  (matched (statistic_sub_value_ref G toks first) = false ->
     primary_expr G toks first = statistic G toks first).
Proof.
  split; [apply primary_expr_regroup|].
  rewrite primary_expr_sub_choice.
  split.
  - intros v it Hsub. rewrite Hsub. reflexivity.
  - destruct (statistic_sub_value_ref G toks first) as [[v|] it];
      [discriminate|reflexivity].
Qed.

(** X2.  The nodes the rules build are flat.  [statistic_sub_value_ref]
    only ever yields a constant or a bound variable; [primary_expr] only
    ever yields a constant, a bound variable or a statistic over one of
    these two: never a function or operator node, never a statistic over a
    statistic. *)
Theorem primary_expr_yields_flat_nodes
    (G : generic_parsers) (toks : list token) (first : Iterator) :
  (forall v it,
     statistic_sub_value_ref G toks first = (Some v, it) -> is_leaf v = true) /\
  (forall v it,
     primary_expr G toks first = (Some v, it) -> is_flat v = true).
Proof.
  split; [intros v it; apply statistic_sub_value_ref_leaf|].
  intros v it. rewrite primary_expr_choice.
  destruct (constant G toks first) as [[c|] itc] eqn:Ec.
  - intros H. injection H as <- _.
    rewrite constant_unfold in Ec.
    destruct (nth_error toks first) as [t|]; [|discriminate].
    destruct (enum_literal G t); [|discriminate].
    injection Ec as <- _. reflexivity.
  - destruct (bound_variable G toks first) as [[b|] itb] eqn:Eb.
    + intros H. injection H as <- _.
      rewrite bound_variable_unfold in Eb.
      destruct (nth_error toks first) as [t|]; [|discriminate].
      destruct (is_variable_keyword t); [|discriminate].
      destruct (qualifying_clauses G toks (S first)) as [[qs|] it'];
        injection Eb as <- _; reflexivity.
    + rewrite statistic_unfold.
      destruct (nth_error toks first) as [t|]; [|discriminate].
      destruct (statistic_keyword G t) as [k|]; [|discriminate].
      destruct (statistic_sub_value_ref G toks (S first)) as [[w|] itw] eqn:Ew;
        [|discriminate].
      intros H. injection H as <- _. simpl.
      apply (statistic_sub_value_ref_leaf G toks (S first) w itw Ew).
Qed.

(** X3.  Where the qualifying clauses keep the cursor inside the buffer and
    never move it backwards: a match of [primary_expr] consumes at least one
    token and ends inside the buffer; at or past the end of the buffer
    [primary_expr] fails and leaves the cursor. *)
Theorem primary_expr_advances_within_buffer (G : generic_parsers) :
  stays_in_buffer (qualifying_clauses G) ->
  forall toks first,
    (forall v it,
       primary_expr G toks first = (Some v, it) ->
       first < it <= List.length toks) /\
    (List.length toks <= first -> primary_expr G toks first = (None, first)).
Proof.
  intros Hq toks first. split; [|apply primary_expr_needs_input].
  intros v it. rewrite primary_expr_sub_choice.
  destruct (statistic_sub_value_ref G toks first) as [[w|] itw] eqn:Ew.
  - intros H. injection H as _ <-.
    apply (statistic_sub_value_ref_advances G toks first w itw Hq Ew).
  - rewrite statistic_unfold.
    destruct (nth_error toks first) as [t|]; [|discriminate].
    destruct (statistic_keyword G t) as [k|]; [|discriminate].
    destruct (statistic_sub_value_ref G toks (S first)) as [[u|] itu] eqn:Eu;
      [|discriminate].
    intros H. injection H as _ <-.
    pose proof (statistic_sub_value_ref_advances G toks (S first) u itu Hq Eu).
    lia.
Qed.

Lemma primary_expr_advances_within_buffer_witness :
  stays_in_buffer (qualifying_clauses Sample.parsers) /\
  0 < snd (primary_expr Sample.parsers ["Mode"; "StarType"; "Source"; "Foo"] 0) <= 4 /\
  primary_expr Sample.parsers ["Mode"; "StarType"] 2 = (None, 2).
Proof.
  split; [exact sample_selector_stays_in_buffer|].
  destruct (primary_expr_advances_within_buffer Sample.parsers
              sample_selector_stays_in_buffer
              ["Mode"; "StarType"; "Source"; "Foo"] 0) as [Hadv _].
  destruct (primary_expr_advances_within_buffer Sample.parsers
              sample_selector_stays_in_buffer
              ["Mode"; "StarType"] 2) as [_ Hend].
  split.
  - exact (Hadv _ 3 eq_refl).
  - apply Hend. simpl. lia.
Defined.

(** X4.  Where the qualifying clauses do not look before the cursor,
    neither do the rules of the grammar: with any tokens put in front of the
    buffer, [statistic_sub_value_ref] and [primary_expr], started at the
    corresponding position, build the same node and end at the
    corresponding position; and so does the entry rule [expr] when the
    function-call and operator forms do not look before the cursor
    either. *)
Theorem star_type_rules_position_independent (G : generic_parsers) :
  position_independent (qualifying_clauses G) ->
  position_independent (statistic_sub_value_ref G) /\
  position_independent (primary_expr G) /\
  (position_independent (function_expr G) ->
   position_independent (operated_expr G) ->
   position_independent (expr G)).
Proof.
  intros Hq.
  assert (position_independent (statistic_sub_value_ref G)) as Hsub.
  { unfold statistic_sub_value_ref, constant, enum_parser, bound_variable,
      initialize_bound_variable_parser, variable_name, qi.tok.
    auto 8 with locality. }
  assert (position_independent (primary_expr G)) as Hprim.
  { intros pre toks first.
    rewrite !primary_expr_regroup.
    apply alternative_position_independent; [exact Hsub|].
    unfold statistic, initialize_nonnumeric_statistic_parser.
    auto with locality. }
  repeat split; trivial.
  intros Hf Ho. unfold expr, initialize_nonnumeric_expression_parsers.
  auto with locality.
Qed.

Lemma star_type_rules_position_independent_witness :
  position_independent (qualifying_clauses Sample.parsers) /\
  primary_expr Sample.parsers
    (["Foo"; "("] ++ ["Mode"; "StarType"; "Source"])%list 2 =
    (Some (Statistic Sample.MODE (BoundVariable "StarType" ["Source"])), 5).
Proof.
  split; [exact sample_selector_position_independent|].
  destruct (star_type_rules_position_independent Sample.parsers
              sample_selector_position_independent) as [_ [Hprim _]].
  exact (Hprim ["Foo"; "("] ["Mode"; "StarType"; "Source"] 0).
Defined.

(** X5.  Where the token classes are kept apart, the three alternatives of
    [primary_expr] exclude one another: at no position do two of them
    match.  The order in which they are written is then immaterial: tried
    in the reverse order they give the same outcome. *)
Theorem alternatives_exclusive_when_keywords_apart (G : generic_parsers) :
  keywords_apart G ->
  forall toks first,
    matched (constant G toks first) &&
      matched (bound_variable G toks first) = false /\
    matched (constant G toks first) &&
      matched (statistic G toks first) = false /\
    matched (bound_variable G toks first) &&
      matched (statistic G toks first) = false /\
    primary_expr G toks first =
      (statistic G <|> bound_variable G <|> constant G)%qi toks first.
Proof.
  intros [Hvar Hstat] toks first.
  rewrite primary_expr_choice.
  rewrite alternative_choice by apply statistic_restores.
  rewrite (alternative_choice (bound_variable G) (constant G))
    by apply bound_variable_restores.
  rewrite statistic_unfold, bound_variable_unfold, constant_unfold.
  destruct (nth_error toks first) as [t|]; [|repeat split; reflexivity].
  specialize (Hvar t). specialize (Hstat t).
  destruct (is_variable_keyword t) eqn:Ev.
  - rewrite (Hvar eq_refl) in *.
    destruct (statistic_keyword G t) as [k|].
    + destruct Hstat as [_ Hno]; [discriminate|discriminate Hno].
    + destruct (qualifying_clauses G toks (S first)) as [[qs|] it];
        repeat split; reflexivity.
  - destruct (statistic_keyword G t) as [k|].
    + destruct Hstat as [He _]; [discriminate|]. rewrite He.
      destruct (statistic_sub_value_ref G toks (S first)) as [[w|] it];
        repeat split; reflexivity.
    + destruct (enum_literal G t) as [e|]; repeat split; reflexivity.
Qed.

Lemma alternatives_exclusive_when_keywords_apart_witness :
  keywords_apart Sample.parsers /\
  primary_expr Sample.parsers ["StarType"; "Source"] 0 =
    (statistic Sample.parsers <|> bound_variable Sample.parsers
       <|> constant Sample.parsers)%qi ["StarType"; "Source"] 0.
Proof.
  split; [exact sample_keywords_apart|].
  apply (alternatives_exclusive_when_keywords_apart Sample.parsers
           sample_keywords_apart ["StarType"; "Source"] 0).
Defined.

(** X6.  Whether or not [DEBUG_VALUEREF_PARSERS] is set, every rule the
    constructor passes to [debug(...)] is one it has named, and the traced
    rules carry pairwise different names; with the flag set the traced
    rules are exactly the named ones, in the same order. *)
Theorem debug_block_traces_named_rules (DEBUG_VALUEREF_PARSERS : bool) :
  Forall (fun m => is_named m = true)
    (debug_statements DEBUG_VALUEREF_PARSERS) /\
  NoDup (map constructed_names (debug_statements DEBUG_VALUEREF_PARSERS)) /\
  debug_statements true = map fst naming_statements.
Proof.
  split; [|split; [|reflexivity]].
  - destruct DEBUG_VALUEREF_PARSERS; simpl; repeat constructor.
  - destruct DEBUG_VALUEREF_PARSERS; [|constructor].
    vm_compute.
    repeat (constructor; [simpl; intuition discriminate|]).
    constructor.
Qed.
